(** * Tetris board: the grid of cell colours and its constructor

    A shallow embedding of [src/tetris/colors.hpp], [src/tetris/board.hpp]
    and of the constructor [Board<width, height>::Board()].

    Objects live in a byte-addressed memory.  A [Color] object is one
    [uint8_t] (the enumeration's fixed underlying type), the member
    [std::array<Color, width * height> grid] is the only data member of a
    [Board] and therefore starts at the address of the object itself, and the
    constructor's range-based [for] loop walks the array from [begin()] to
    [end()] storing [Color::Background] through the iterator. *)

From Stdlib Require Import ZArith Lia.
From Stdlib.Strings Require Import Byte.
From stdpp Require Import base option list.

Local Open Scope Z_scope.

(** ** [size_t]: unsigned 64-bit arithmetic (LP64 targets) *)

Module size_t.

Definition bits : Z := 64.
Definition modulus : Z := 2 ^ bits.
Definition SIZE_MAX : Z := modulus - 1.

(** The values a [size_t] template argument can take. *)
Definition in_range (z : Z) : Prop := 0 <= z <= SIZE_MAX.

(** Unsigned arithmetic wraps around. *)
Definition wrap (z : Z) : Z := z mod modulus.

(** [a * b] on two [size_t] operands. *)
Definition mul (a b : Z) : Z := wrap (a * b).

End size_t.

(** A strictly positive [size_t]: the dimensions the specification admits. *)
Definition positive_size_t (z : Z) : Prop := 0 < z <= size_t.SIZE_MAX.

(** Closes a side condition on concrete dimensions. *)
Ltac solve_dims :=
  unfold positive_size_t, size_t.in_range, size_t.SIZE_MAX, size_t.modulus,
    size_t.bits in *; lia.

(** Refutes membership in a list of pairwise distinct literals. *)
Ltac not_in_literals :=
  let Hin := fresh "Hin" in
  intros Hin;
  repeat (apply elem_of_cons in Hin as [Hin | Hin]; [discriminate Hin |]);
  by apply elem_of_nil in Hin.

(** ** [enum class Color : uint8_t] *)

Inductive Color : Set :=
  | Red         (* I *)
  | White       (* J *)
  | Magenta     (* L *)
  | Blue        (* O *)
  | Green       (* S *)
  | Brown       (* T *)
  | Cyan        (* Z *)
  | Background.

(** The enumerators carry no initialiser: the first one is 0 and each
    following one is its predecessor plus one. *)
Definition to_underlying (c : Color) : byte :=
  match c with
  | Red => x00
  | White => x01
  | Magenta => x02
  | Blue => x03
  | Green => x04
  | Brown => x05
  | Cyan => x06
  | Background => x07
  end.

(** Reading a stored byte back as an enumerator; a [Color] object may hold
    any [uint8_t], and only eight of those values are named. *)
Definition from_underlying (b : byte) : option Color :=
  match b with
  | x00 => Some Red
  | x01 => Some White
  | x02 => Some Magenta
  | x03 => Some Blue
  | x04 => Some Green
  | x05 => Some Brown
  | x06 => Some Cyan
  | x07 => Some Background
  | _ => None
  end.

(** The built-in [==] of a scoped enumeration compares underlying values. *)
Definition Color_eqb (a b : Color) : bool :=
  Byte.eqb (to_underlying a) (to_underlying b).

(** [cell == c] for a stored cell. *)
Definition cell_eqb (cell : byte) (c : Color) : bool :=
  Byte.eqb cell (to_underlying c).

(** The enumerators in declaration order. *)
Definition Color_enumerators : list Color :=
  [Red; White; Magenta; Blue; Green; Brown; Cyan; Background].

(** The seven colours of the tetrominoes. *)
Definition playfield_colors : list Color :=
  [Red; White; Magenta; Blue; Green; Brown; Cyan].

(** ** Memory *)

(** Addresses are indices into the allocated bytes. *)
Abbreviation addr := nat (only parsing).
Abbreviation memory := (list byte) (only parsing).

(** [*p = v]: defined only when [p] points into allocated storage. *)
Definition store (p : addr) (v : byte) (m : memory) : option memory :=
  if decide (p < length m)%nat then Some (<[p := v]> m) else None.

(** [*p] *)
Definition load (p : addr) (m : memory) : option byte := m !! p.

(** Storage for a new object of [n] bytes.  It does not overlap any storage
    already in use, and its content is indeterminate: [indeterminate] stands
    for whatever the bytes happen to hold. *)
Definition alloc (n : nat) (indeterminate : nat -> byte) (m : memory)
  : addr * memory :=
  (length m, m ++ (indeterminate <$> seq 0 n)).

(** [for (auto& cell : range) cell = v;] over the [steps] cells that remain
    between the iterator [it] and the end of the range. *)
Fixpoint range_for_assign (steps : nat) (it : addr) (v : byte) (m : memory)
  : option memory :=
  match steps with
  | O => Some m
  | S steps' =>
      m' ← store it v m;
      range_for_assign steps' (S it) v m'
  end.

(** ** [template <size_t width, size_t height> class Board] *)

Module Board.
Section Template.

Variables width height : Z.

(** The extent of [std::array<Color, width * height>]: the product is a
    [size_t] expression. *)
Definition N : nat := Z.to_nat (size_t.mul width height).

(** [grid.begin()] and [grid.end()] of the object at [this]; [grid] is the
    only data member and [sizeof(Color)] is 1. *)
Definition grid_begin (this : addr) : addr := this.
Definition grid_end (this : addr) : addr := (this + N)%nat.

(** The object's storage lies within allocated memory. *)
Definition allocated (this : addr) (m : memory) : Prop :=
  (grid_end this <= length m)%nat.

(** [Board<width, height>::Board()] run on the object at [this]. *)
Definition Board (this : addr) (m : memory) : option memory :=
  range_for_assign N (grid_begin this) (to_underlying Background) m.

(** The contents of the member [grid] of the object at [this]. *)
Definition grid (this : addr) (m : memory) : list byte :=
  take N (drop (grid_begin this) m).

(** Creating a [Board<width, height>] object: obtain storage, then run the
    constructor on it. *)
Definition new_ (indeterminate : nat -> byte) (m : memory)
  : option (addr * memory) :=
  let '(this, m1) := alloc N indeterminate m in
  m2 ← Board this m1;
  Some (this, m2).

End Template.
End Board.

(** ** The grid as the specification describes it

    Written from the specification's words (section 4.1, [Construct]): the
    dimensions are run-time fields, and the backing sequence has exactly
    [width * height] elements, every one equal to [Background]. *)

Module SpecGrid.

Record t : Type := mk { width : Z; height : Z; cells : list Color }.

Definition Construct (w h : Z) : t :=
  {| width := w; height := h; cells := replicate (Z.to_nat (w * h)) Background |}.

End SpecGrid.

(** * Properties *)

(** ** [size_t] *)

Lemma size_t_modulus_pos : 0 < size_t.modulus.
Proof. reflexivity. Qed.

Lemma size_t_mul_in_range (a b : Z) : size_t.in_range (size_t.mul a b).
Proof.
  unfold size_t.in_range, size_t.mul, size_t.wrap, size_t.SIZE_MAX.
  pose proof (Z.mod_pos_bound (a * b) size_t.modulus size_t_modulus_pos). lia.
Qed.

Lemma size_t_mul_exact (a b : Z) :
  size_t.in_range (a * b) -> size_t.mul a b = a * b.
Proof.
  unfold size_t.in_range, size_t.mul, size_t.wrap, size_t.SIZE_MAX. intros Hr.
  apply Z.mod_small. lia.
Qed.

(** ** Memory *)

Lemma store_Some (p : addr) (v : byte) (m : memory) :
  (p < length m)%nat -> store p v m = Some (<[p := v]> m).
Proof. intros Hp. unfold store. by rewrite decide_True. Qed.

(** The loop, in closed form: it succeeds exactly on a range that lies in
    allocated storage, overwrites that range and nothing else. *)
Lemma range_for_assign_Some (steps : nat) (v : byte) :
  forall (it : addr) (m : memory),
    (it + steps <= length m)%nat ->
    range_for_assign steps it v m
    = Some (take it m ++ replicate steps v ++ drop (it + steps) m).
Proof.
  induction steps as [|steps IH]; intros it m Hlen; simpl.
  - by rewrite Nat.add_0_r, take_drop.
  - rewrite store_Some by lia. simpl.
    rewrite IH by (rewrite length_insert; lia).
    f_equal.
    assert (Hit : <[it := v]> m !! it = Some v)
      by (apply list_lookup_insert_eq; lia).
    rewrite (take_S_r _ _ _ Hit), take_insert_ge by lia.
    rewrite drop_insert_lt by lia.
    by rewrite <- app_assoc, Nat.add_succ_r.
Qed.

(** Outside the range the loop leaves every byte as it was, and the size of
    the memory does not change. *)
Lemma range_for_assign_frame (steps : nat) (v : byte) (it : addr)
    (m m' : memory) :
  range_for_assign steps it v m = Some m' ->
  length m' = length m /\
  forall p : addr, (p < it \/ it + steps <= p)%nat -> m' !! p = m !! p.
Proof.
  revert it m. induction steps as [|steps IH]; intros it m; simpl.
  - intros [= <-]. done.
  - unfold store. case_decide as Hit; [simpl | done].
    intros Hrun. destruct (IH _ _ Hrun) as [Hlen Hout]. split.
    + by rewrite Hlen, length_insert.
    + intros p Hp. rewrite Hout by lia. apply list_lookup_insert_ne. lia.
Qed.

(** A range that reaches past the allocated bytes makes the loop fail: the
    bounds check of [store] is not vacuous. *)
Lemma range_for_assign_None (steps : nat) (v : byte) :
  forall (it : addr) (m : memory),
    (0 < steps)%nat -> (length m < it + steps)%nat ->
    range_for_assign steps it v m = None.
Proof.
  induction steps as [|steps IH]; intros it m Hpos Hlen; simpl; [lia |].
  unfold store. case_decide as Hit; [simpl | done].
  apply IH; rewrite ?length_insert; lia.
Qed.

(** ** [enum class Color] *)

Lemma from_to_underlying (c : Color) : from_underlying (to_underlying c) = Some c.
Proof. by destruct c. Qed.

Lemma to_underlying_inj (a b : Color) : to_underlying a = to_underlying b -> a = b.
Proof.
  intros Hab. apply (f_equal from_underlying) in Hab.
  rewrite !from_to_underlying in Hab. congruence.
Qed.

Lemma Color_eqb_eq (a b : Color) : Color_eqb a b = true <-> a = b.
Proof.
  unfold Color_eqb. split.
  - intros Hab. apply to_underlying_inj. by apply Byte.byte_dec_bl.
  - intros ->. apply Byte.byte_dec_lb. done.
Qed.

Lemma cell_eqb_eq (cell : byte) (c : Color) :
  cell_eqb cell c = true <-> cell = to_underlying c.
Proof.
  unfold cell_eqb. split; [apply Byte.byte_dec_bl | apply Byte.byte_dec_lb].
Qed.

(** ** The constructor *)

Section Constructor.

Variables width height : Z.

Local Abbreviation N := (Board.N width height).
Local Abbreviation bg := (to_underlying Background).

(** On allocated storage the constructor succeeds and its effect on the
    memory is to overwrite the [N] cells of [grid] with [Background]. *)
Lemma Board_ctor_Some (this : addr) (m : memory) :
  Board.allocated width height this m ->
  Board.Board width height this m
  = Some (take this m ++ replicate N bg ++ drop (this + N) m).
Proof.
  unfold Board.allocated, Board.grid_end, Board.Board, Board.grid_begin.
  apply range_for_assign_Some.
Qed.

Lemma grid_of_filled (this : addr) (m : memory) :
  (this <= length m)%nat ->
  Board.grid width height this (take this m ++ replicate N bg ++ drop (this + N) m)
  = replicate N bg.
Proof.
  intros Hthis. unfold Board.grid, Board.grid_begin.
  rewrite drop_app_length' by (rewrite length_take; lia).
  rewrite take_app_length' by (by rewrite length_replicate).
  done.
Qed.

(** [grid[i]] is the byte at offset [i] from the object's address. *)
Lemma grid_lookup (this : addr) (i : nat) (m : memory) :
  (i < N)%nat -> Board.grid width height this m !! i = load (this + i) m.
Proof.
  intros Hi. unfold Board.grid, Board.grid_begin, load.
  by rewrite lookup_take_lt, lookup_drop.
Qed.

Lemma Board_ctor_grid (this : addr) (m : memory) :
  Board.allocated width height this m ->
  exists m', Board.Board width height this m = Some m' /\
             Board.grid width height this m' = replicate N bg.
Proof.
  intros Halloc. eexists. split; [by apply Board_ctor_Some |].
  apply grid_of_filled. unfold Board.allocated, Board.grid_end in Halloc. lia.
Qed.

(** The storage obtained for a new object is allocated. *)
Lemma alloc_allocated (indet : nat -> byte) (m : memory) :
  Board.allocated width height (alloc N indet m).1 (alloc N indet m).2.
Proof.
  unfold Board.allocated, Board.grid_end, alloc. simpl.
  rewrite length_app, length_fmap, length_seq. lia.
Qed.

(** Creating an object appends its [N] cells, all [Background], to the
    memory in use and leaves that memory as it was. *)
Lemma Board_new_Some (indet : nat -> byte) (m : memory) :
  Board.new_ width height indet m = Some (length m, m ++ replicate N bg).
Proof.
  unfold Board.new_. pose proof (alloc_allocated indet m) as Halloc.
  unfold alloc in *. simpl in Halloc.
  rewrite (Board_ctor_Some _ _ Halloc). simpl. do 2 f_equal.
  rewrite take_app_length. f_equal.
  rewrite drop_ge; [by rewrite app_nil_r |].
  rewrite length_app, length_fmap, length_seq. lia.
Qed.

Lemma Board_new_grid (m : memory) :
  Board.grid width height (length m) (m ++ replicate N bg) = replicate N bg.
Proof.
  unfold Board.grid, Board.grid_begin.
  rewrite drop_app_length. apply take_ge. by rewrite length_replicate.
Qed.

Lemma Board_new_grid_length (m : memory) :
  length (Board.grid width height (length m) (m ++ replicate N bg)) = N.
Proof. by rewrite Board_new_grid, length_replicate. Qed.

(** The constructor writes inside its own object only. *)
Lemma Board_ctor_frame (this : addr) (m m' : memory) :
  Board.Board width height this m = Some m' ->
  length m' = length m /\
  forall p : addr,
    (p < Board.grid_begin this \/ Board.grid_end width height this <= p)%nat ->
    load p m' = load p m.
Proof. apply range_for_assign_frame. Qed.

(** A run of the constructor that completes was given allocated storage
    (or had no cell to write). *)
Lemma Board_ctor_Some_inv (this : addr) (m m' : memory) :
  Board.Board width height this m = Some m' ->
  Board.allocated width height this m \/ N = 0%nat.
Proof.
  unfold Board.Board, Board.allocated, Board.grid_end, Board.grid_begin.
  intros Hrun.
  destruct (decide (N = 0%nat)) as [Hz | Hnz]; [by right | left].
  destruct (decide (this + N <= length m)%nat) as [Hle | Hgt]; [done |].
  rewrite range_for_assign_None in Hrun by lia. discriminate.
Qed.

Lemma Board_ctor_grid_inv (this : addr) (m m' : memory) :
  Board.Board width height this m = Some m' ->
  Board.grid width height this m' = replicate N bg.
Proof.
  intros Hrun. destruct (Board_ctor_Some_inv _ _ _ Hrun) as [Halloc | Hz].
  - destruct (Board_ctor_grid _ _ Halloc) as (m'' & Hrun' & Hgrid). congruence.
  - unfold Board.grid. by rewrite Hz.
Qed.

(** The grid of an object read out of a memory laid out around it. *)
Lemma grid_app_middle (before cells after : list byte) :
  length cells = N ->
  Board.grid width height (length before) (before ++ cells ++ after) = cells.
Proof.
  intros Hcells. unfold Board.grid, Board.grid_begin.
  rewrite drop_app_length. by apply take_app_length'.
Qed.

Lemma grid_app_end (before cells : list byte) :
  length cells = N ->
  Board.grid width height (length before) (before ++ cells) = cells.
Proof.
  intros Hcells. rewrite <- (app_nil_r cells) at 1. by apply grid_app_middle.
Qed.

End Constructor.

(** The extent of the grid, as an integer. *)
Lemma Board_N_mod (W H : Z) : Z.of_nat (Board.N W H) = (W * H) mod 2 ^ 64.
Proof.
  unfold Board.N, size_t.mul, size_t.wrap. rewrite Z2Nat.id; [reflexivity |].
  apply Z.mod_pos_bound. reflexivity.
Qed.

Lemma Board_N_exact (W H : Z) :
  0 <= W * H <= size_t.SIZE_MAX -> Z.of_nat (Board.N W H) = W * H.
Proof.
  intros Hfit. rewrite Board_N_mod. apply Z.mod_small. solve_dims.
Qed.

Lemma Board_N_zero (W H : Z) : W = 0 \/ H = 0 -> Board.N W H = 0%nat.
Proof.
  intros Hz. apply Nat2Z.inj. rewrite Board_N_mod.
  replace (W * H) with 0 by (destruct Hz; subst; lia). reflexivity.
Qed.

(** ** The specification's grid *)

Lemma SpecGrid_cells_length (w h : Z) :
  length (SpecGrid.cells (SpecGrid.Construct w h)) = Z.to_nat (w * h).
Proof. apply length_replicate. Qed.

Lemma SpecGrid_cells_Background (w h : Z) :
  Forall (fun c => c = Background) (SpecGrid.cells (SpecGrid.Construct w h)).
Proof. apply Forall_replicate. reflexivity. Qed.

(** ** Worked runs *)

(** A 2x2 board created after one byte already in use, over storage that
    held [0xff] bytes. *)
Example new_2x2 :
  Board.new_ 2 2 (fun _ => xff) [x2a] = Some (1%nat, [x2a; x07; x07; x07; x07]).
Proof. reflexivity. Qed.

(** The constructor run on an object placed inside existing storage. *)
Example ctor_2x2_in_place :
  Board.Board 2 2 1 [x2a; x10; x11; x12; x13; x2b]
  = Some [x2a; x07; x07; x07; x07; x2b].
Proof. reflexivity. Qed.

(** Run on an object whose storage was never obtained, the constructor's
    first store is out of bounds. *)
Example ctor_unallocated : Board.Board 4 4 0 [] = None.
Proof. reflexivity. Qed.

(** * The properties of the specification *)

(** C3. The type [Color] has exactly eight enumerators: the seven playfield
    colours Red, White, Magenta, Blue, Green, Brown and Cyan, followed by
    the sentinel Background.  They are pairwise distinct, every value of the
    type is one of them, and comparing Background with any playfield colour
    by [==] yields false (so Background differs from each of them). *)
Theorem Color_eight_variants_Background_distinct :
  Color_enumerators = playfield_colors ++ [Background] /\
  playfield_colors = [Red; White; Magenta; Blue; Green; Brown; Cyan] /\
  length Color_enumerators = 8%nat /\
  length playfield_colors = 7%nat /\
  NoDup Color_enumerators /\
  (forall c : Color, c ∈ Color_enumerators) /\
  NoDup (to_underlying <$> Color_enumerators) /\
  Forall (fun c => Color_eqb Background c = false /\ Background <> c)
         playfield_colors.
Proof.
  split; [reflexivity |]. split; [reflexivity |].
  split; [reflexivity |]. split; [reflexivity |].
  assert (Hvalues : NoDup (to_underlying <$> Color_enumerators)).
  { unfold Color_enumerators. simpl.
    repeat (apply NoDup_cons; split; [not_in_literals |]). apply NoDup_nil_2. }
  split; [| split; [| split; [exact Hvalues |]]].
  - eapply NoDup_fmap_1, Hvalues.
  - intros c. unfold Color_enumerators.
    destruct c; repeat (first [apply list_elem_of_here | apply list_elem_of_further]).
  - unfold playfield_colors.
    repeat (constructor; [split; [reflexivity | discriminate] |]).
    constructor.
Qed.

(** C1. For positive [W] and [H], once the constructor of [Board<W, H>] has
    run on an object, every cell of the object's backing sequence [grid]
    holds [Color::Background]: the whole sequence, cell by cell at every
    valid index (each of which lies in [0, W*H)), and, when the product
    [W*H] is representable, at every index [i] of [0, W*H). *)
Theorem Board_ctor_every_cell_Background (W H : Z) :
  positive_size_t W -> positive_size_t H ->
  forall (this : addr) (m : memory),
    Board.allocated W H this m ->
    exists m' : memory,
      Board.Board W H this m = Some m' /\
      Forall (fun cell => cell = to_underlying Background)
             (Board.grid W H this m') /\
      (forall i : nat,
          (i < length (Board.grid W H this m'))%nat ->
          Z.of_nat i < W * H /\
          Board.grid W H this m' !! i = Some (to_underlying Background) /\
          load (this + i) m' = Some (to_underlying Background)) /\
      (W * H <= size_t.SIZE_MAX ->
       forall i : Z,
         0 <= i < W * H ->
         Board.grid W H this m' !! Z.to_nat i = Some (to_underlying Background)).
Proof.
  intros HW HH this m Halloc.
  destruct (Board_ctor_grid W H this m Halloc) as (m' & Hrun & Hgrid).
  exists m'. split; [exact Hrun |]. rewrite Hgrid.
  split; [apply Forall_replicate; reflexivity |].
  assert (Hle : Z.of_nat (Board.N W H) <= W * H).
  { unfold Board.N, size_t.mul, size_t.wrap.
    pose proof (Z.mod_pos_bound (W * H) _ size_t_modulus_pos).
    assert (0 <= W * H) by (unfold positive_size_t in *; nia).
    pose proof (Z.mod_le (W * H) size_t.modulus). lia. }
  split.
  - rewrite length_replicate. intros i Hi.
    split; [lia |]. split; [by apply lookup_replicate_2 |].
    rewrite <- (grid_lookup W H) by exact Hi.
    rewrite Hgrid. by apply lookup_replicate_2.
  - intros Hfit i Hi. apply lookup_replicate_2.
    unfold Board.N. rewrite size_t_mul_exact by solve_dims. lia.
Qed.

(** The constructor of [Board<4, 4>] run on sixteen bytes of storage. *)
Lemma Board_ctor_every_cell_Background_witness :
  exists m' : memory,
    Board.Board 4 4 0 (replicate 16 xff) = Some m' /\
    Forall (fun cell => cell = to_underlying Background) (Board.grid 4 4 0 m') /\
    (forall i : nat,
        (i < length (Board.grid 4 4 0 m'))%nat ->
        Z.of_nat i < 4 * 4 /\
        Board.grid 4 4 0 m' !! i = Some (to_underlying Background) /\
        load (0 + i) m' = Some (to_underlying Background)) /\
    (4 * 4 <= size_t.SIZE_MAX ->
     forall i : Z,
       0 <= i < 4 * 4 ->
       Board.grid 4 4 0 m' !! Z.to_nat i = Some (to_underlying Background)).
Proof.
  apply (Board_ctor_every_cell_Background 4 4);
    [solve_dims | solve_dims | vm_compute; lia].
Defined.

(** C2 (as stated, refuted).  [Board<2^32, 2^32>]: both dimensions are
    positive [size_t] values, the object is constructed, and its backing
    sequence has no element at all, not [2^32 * 2^32 = 2^64] of them. *)
Lemma Board_size_exact_product_counterexample :
  positive_size_t (2 ^ 32) /\
  Board.new_ (2 ^ 32) (2 ^ 32) (fun _ => x00) [] = Some (0%nat, []) /\
  length (Board.grid (2 ^ 32) (2 ^ 32) 0 []) = 0%nat /\
  Z.of_nat (length (Board.grid (2 ^ 32) (2 ^ 32) 0 [])) <> 2 ^ 32 * 2 ^ 32.
Proof.
  split; [solve_dims |].
  split; [reflexivity |]. split; [reflexivity |].
  vm_compute. discriminate.
Qed.

(** C2 (amended).  For positive [W] and [H] whose product does not exceed
    [SIZE_MAX], constructing a [Board<W, H>] yields a backing sequence of
    exactly [W * H] elements. *)
Theorem Board_size_product_when_representable (W H : Z) :
  positive_size_t W -> positive_size_t H ->
  W * H <= size_t.SIZE_MAX ->
  forall (indet : nat -> byte) (m : memory),
    exists (this : addr) (m' : memory),
      Board.new_ W H indet m = Some (this, m') /\
      Z.of_nat (length (Board.grid W H this m')) = W * H.
Proof.
  intros HW HH Hfit indet m. rewrite Board_new_Some.
  eexists _, _. split; [reflexivity |].
  rewrite Board_new_grid_length. apply Board_N_exact.
  unfold positive_size_t in *. nia.
Qed.

(** A 10x20 playfield has 200 cells. *)
Lemma Board_size_product_when_representable_witness :
  exists (this : addr) (m' : memory),
    Board.new_ 10 20 (fun _ => x00) [] = Some (this, m') /\
    Z.of_nat (length (Board.grid 10 20 this m')) = 10 * 20.
Proof.
  apply (Board_size_product_when_representable 10 20); solve_dims.
Defined.

(** C9.  The extent of the backing array is [width * height] computed in
    [size_t], that is modulo [2^64]: whatever the dimensions, construction
    goes through and the grid has [(W * H) mod 2^64] elements; when the
    mathematical product exceeds [SIZE_MAX] this is fewer than, and so not
    equal to, [W * H]. *)
Theorem Board_size_is_product_mod_2_64 (W H : Z) :
  size_t.in_range W -> size_t.in_range H ->
  forall (indet : nat -> byte) (m : memory),
    exists (this : addr) (m' : memory),
      Board.new_ W H indet m = Some (this, m') /\
      Z.of_nat (length (Board.grid W H this m')) = (W * H) mod 2 ^ 64 /\
      (size_t.SIZE_MAX < W * H ->
       Z.of_nat (length (Board.grid W H this m')) < W * H).
Proof.
  intros HW HH indet m. rewrite Board_new_Some.
  eexists _, _. split; [reflexivity |].
  rewrite Board_new_grid_length, Board_N_mod. split; [reflexivity |].
  intros Hover.
  pose proof (Z.mod_pos_bound (W * H) (2 ^ 64) eq_refl). solve_dims.
Qed.

(** The product [2^32 * (2^32 + 3)] is [2^64 + 3 * 2^32]. *)
Lemma Board_size_is_product_mod_2_64_witness :
  exists (this : addr) (m' : memory),
    Board.new_ (2 ^ 32) (2 ^ 32 + 3) (fun _ => x00) [] = Some (this, m') /\
    Z.of_nat (length (Board.grid (2 ^ 32) (2 ^ 32 + 3) this m'))
    = (2 ^ 32 * (2 ^ 32 + 3)) mod 2 ^ 64 /\
    (size_t.SIZE_MAX < 2 ^ 32 * (2 ^ 32 + 3) ->
     Z.of_nat (length (Board.grid (2 ^ 32) (2 ^ 32 + 3) this m'))
     < 2 ^ 32 * (2 ^ 32 + 3)).
Proof.
  apply (Board_size_is_product_mod_2_64 (2 ^ 32) (2 ^ 32 + 3)); solve_dims.
Defined.

(** C4.  Construction has no failure path.  The constructor checks nothing
    and every store of its loop lands inside the object: creating a
    [Board<W, H>] returns an object for all [W] and [H] (the positive ones
    in particular), whatever the memory in use and whatever the new storage
    held, and the constructor run on any allocated object completes. *)
Theorem Board_construction_never_fails (W H : Z) :
  (forall (indet : nat -> byte) (m : memory),
      exists (this : addr) (m' : memory),
        Board.new_ W H indet m = Some (this, m') /\
        length (Board.grid W H this m') = Board.N W H) /\
  (forall (this : addr) (m : memory),
      Board.allocated W H this m -> is_Some (Board.Board W H this m)).
Proof.
  split.
  - intros indet m. rewrite Board_new_Some. eexists _, _.
    split; [reflexivity | apply Board_new_grid_length].
  - intros this m Halloc. rewrite Board_ctor_Some by exact Halloc. by eexists.
Qed.

(** C5.  [Board<4, 4>] has a backing sequence of exactly 16 elements, all
    equal to Background and none equal to any of the seven piece colours;
    [Board<1, 1>] has a backing sequence of one element, equal to
    Background. *)
Theorem Board_4x4_and_1x1 (indet : nat -> byte) (m : memory) :
  (exists (this : addr) (m' : memory),
      Board.new_ 4 4 indet m = Some (this, m') /\
      length (Board.grid 4 4 this m') = 16%nat /\
      Board.grid 4 4 this m' = replicate 16 (to_underlying Background) /\
      Forall (fun cell =>
                from_underlying cell = Some Background /\
                Forall (fun c => cell_eqb cell c = false /\ cell <> to_underlying c)
                       playfield_colors)
             (Board.grid 4 4 this m')) /\
  (exists (this : addr) (m' : memory),
      Board.new_ 1 1 indet m = Some (this, m') /\
      length (Board.grid 1 1 this m') = 1%nat /\
      Board.grid 1 1 this m' = [to_underlying Background]).
Proof.
  split; rewrite Board_new_Some; eexists _, _; (split; [reflexivity |]);
    rewrite Board_new_grid.
  - change (Board.N 4 4) with 16%nat.
    split; [reflexivity |]. split; [reflexivity |].
    apply Forall_replicate. split; [reflexivity |].
    unfold playfield_colors.
    repeat (constructor; [split; [reflexivity | discriminate] |]).
    constructor.
  - change (Board.N 1 1) with 1%nat. split; reflexivity.
Qed.

(** C6.  Zero dimensions are not rejected.  When [W = 0] or [H = 0] (so for
    [Board<0, 0>]) the extent of the array is zero, the object is
    constructed, its backing sequence is empty, and the fill loop does
    nothing: the constructor returns the memory it was given. *)
Theorem Board_zero_dimension (W H : Z) :
  W = 0 \/ H = 0 ->
  Board.N W H = 0%nat /\
  (forall (indet : nat -> byte) (m : memory),
      Board.new_ W H indet m = Some (length m, m) /\
      Board.grid W H (length m) m = []) /\
  (forall (this : addr) (m : memory),
      Board.Board W H this m = Some m /\ Board.grid W H this m = []).
Proof.
  intros Hz. pose proof (Board_N_zero W H Hz) as HN.
  split; [exact HN |]. split.
  - intros indet m. rewrite Board_new_Some, HN. simpl.
    rewrite app_nil_r. split; [reflexivity |].
    unfold Board.grid. by rewrite HN.
  - intros this m. unfold Board.Board, Board.grid. by rewrite HN.
Qed.

(** [Board<0, 0>]. *)
Lemma Board_zero_dimension_witness :
  Board.N 0 0 = 0%nat /\
  (forall (indet : nat -> byte) (m : memory),
      Board.new_ 0 0 indet m = Some (length m, m) /\
      Board.grid 0 0 (length m) m = []) /\
  (forall (this : addr) (m : memory),
      Board.Board 0 0 this m = Some m /\ Board.grid 0 0 this m = []).
Proof. apply (Board_zero_dimension 0 0). left. reflexivity. Defined.

(** C10.  Construction is deterministic.  The constructor reads nothing but
    its template arguments: two creations of a [Board<W, H>], in any two
    memories and over storage holding any two contents, both complete and
    give grids that are equal element by element; and any two runs of the
    constructor that complete leave equal grids. *)
Theorem Board_construction_deterministic (W H : Z) :
  (forall (indet1 indet2 : nat -> byte) (m1 m2 : memory),
      exists (this1 this2 : addr) (m1' m2' : memory),
        Board.new_ W H indet1 m1 = Some (this1, m1') /\
        Board.new_ W H indet2 m2 = Some (this2, m2') /\
        Board.grid W H this1 m1' = Board.grid W H this2 m2' /\
        forall i : nat,
          Board.grid W H this1 m1' !! i = Board.grid W H this2 m2' !! i) /\
  (forall (this1 this2 : addr) (m1 m2 m1' m2' : memory),
      Board.Board W H this1 m1 = Some m1' ->
      Board.Board W H this2 m2 = Some m2' ->
      Board.grid W H this1 m1' = Board.grid W H this2 m2').
Proof.
  split.
  - intros indet1 indet2 m1 m2. rewrite !Board_new_Some.
    eexists _, _, _, _. split; [reflexivity |]. split; [reflexivity |].
    rewrite !Board_new_grid. done.
  - intros this1 this2 m1 m2 m1' m2' Hrun1 Hrun2.
    rewrite (Board_ctor_grid_inv _ _ _ _ _ Hrun1).
    by rewrite (Board_ctor_grid_inv _ _ _ _ _ Hrun2).
Qed.

(** C7 (as stated, refuted).  For the positive dimensions [2^32] and [2^32]
    the specification's run-time grid has [2^64] cells while
    [Board<2^32, 2^32>] is constructed with an empty backing sequence: the
    two do not agree. *)
Lemma runtime_Grid_equivalence_counterexample :
  positive_size_t (2 ^ 32) /\
  Board.new_ (2 ^ 32) (2 ^ 32) (fun _ => x00) [] = Some (0%nat, []) /\
  Board.grid (2 ^ 32) (2 ^ 32) 0 [] = [] /\
  Z.of_nat (length (SpecGrid.cells (SpecGrid.Construct (2 ^ 32) (2 ^ 32)))) = 2 ^ 64 /\
  to_underlying <$> SpecGrid.cells (SpecGrid.Construct (2 ^ 32) (2 ^ 32))
  <> Board.grid (2 ^ 32) (2 ^ 32) 0 [].
Proof.
  assert (Hlen : Z.of_nat (length (SpecGrid.cells (SpecGrid.Construct (2 ^ 32) (2 ^ 32))))
                 = 2 ^ 64).
  { rewrite SpecGrid_cells_length, Z2Nat.id; [reflexivity | vm_compute; discriminate]. }
  split; [solve_dims |]. split; [reflexivity |]. split; [reflexivity |].
  split; [exact Hlen |].
  intros Heq. apply (f_equal length) in Heq. rewrite length_fmap in Heq.
  apply (f_equal Z.of_nat) in Heq. rewrite Hlen in Heq.
  change (Board.grid (2 ^ 32) (2 ^ 32) 0 []) with (@nil byte) in Heq.
  discriminate Heq.
Qed.

(** C7 (amended).  For positive [W] and [H] whose product does not exceed
    [SIZE_MAX], the grid with run-time dimensions and the compile-time
    [Board<W, H>] agree: both hold [W * H] cells, all Background, and the
    stored grid is cell for cell the representation of the run-time one. *)
Theorem runtime_Grid_equivalent_when_representable (W H : Z) :
  positive_size_t W -> positive_size_t H ->
  W * H <= size_t.SIZE_MAX ->
  forall (indet : nat -> byte) (m : memory),
    exists (this : addr) (m' : memory),
      Board.new_ W H indet m = Some (this, m') /\
      Board.grid W H this m'
      = to_underlying <$> SpecGrid.cells (SpecGrid.Construct W H) /\
      from_underlying <$> Board.grid W H this m'
      = Some <$> SpecGrid.cells (SpecGrid.Construct W H) /\
      Z.of_nat (length (Board.grid W H this m')) = W * H /\
      Z.of_nat (length (SpecGrid.cells (SpecGrid.Construct W H))) = W * H /\
      Forall (fun cell => cell = to_underlying Background) (Board.grid W H this m') /\
      Forall (fun c => c = Background) (SpecGrid.cells (SpecGrid.Construct W H)).
Proof.
  intros HW HH Hfit indet m.
  assert (Hpos : 0 <= W * H) by (unfold positive_size_t in *; nia).
  assert (HN : Board.N W H = Z.to_nat (W * H)).
  { unfold Board.N. by rewrite size_t_mul_exact by solve_dims. }
  rewrite Board_new_Some. eexists _, _. split; [reflexivity |].
  rewrite Board_new_grid, HN. unfold SpecGrid.Construct. simpl.
  rewrite !fmap_replicate, !length_replicate, Z2Nat.id by exact Hpos.
  repeat split; [apply Forall_replicate; reflexivity |].
  apply (SpecGrid_cells_Background W H).
Qed.

(** The two representations of a 10x20 playfield. *)
Lemma runtime_Grid_equivalent_when_representable_witness :
  exists (this : addr) (m' : memory),
    Board.new_ 10 20 (fun _ => xff) [] = Some (this, m') /\
    Board.grid 10 20 this m'
    = to_underlying <$> SpecGrid.cells (SpecGrid.Construct 10 20) /\
    from_underlying <$> Board.grid 10 20 this m'
    = Some <$> SpecGrid.cells (SpecGrid.Construct 10 20) /\
    Z.of_nat (length (Board.grid 10 20 this m')) = 10 * 20 /\
    Z.of_nat (length (SpecGrid.cells (SpecGrid.Construct 10 20))) = 10 * 20 /\
    Forall (fun cell => cell = to_underlying Background) (Board.grid 10 20 this m') /\
    Forall (fun c => c = Background) (SpecGrid.cells (SpecGrid.Construct 10 20)).
Proof.
  apply (runtime_Grid_equivalent_when_representable 10 20); solve_dims.
Defined.

(** C8.  Two [Board<W, H>] objects created one after the other have
    backing sequences in disjoint storage: no cell of one has the address
    of a cell of the other, creating the second leaves the first fully
    Background, and a store into any cell of either grid changes that cell
    and leaves the whole grid of the other object as it was. *)
Theorem Board_two_instances_independent (W H : Z) :
  positive_size_t W -> positive_size_t H ->
  forall (indet1 indet2 : nat -> byte) (m : memory),
    exists (this1 this2 : addr) (m1 m2 : memory),
      Board.new_ W H indet1 m = Some (this1, m1) /\
      Board.new_ W H indet2 m1 = Some (this2, m2) /\
      (forall i j : nat,
          (i < Board.N W H)%nat -> (j < Board.N W H)%nat ->
          (this1 + i)%nat <> (this2 + j)%nat) /\
      Board.grid W H this1 m2 = replicate (Board.N W H) (to_underlying Background) /\
      Board.grid W H this2 m2 = replicate (Board.N W H) (to_underlying Background) /\
      (forall (i : nat) (v : byte),
          (i < Board.N W H)%nat ->
          exists m3 : memory,
            store (this1 + i) v m2 = Some m3 /\
            Board.grid W H this1 m3 = <[i := v]> (Board.grid W H this1 m2) /\
            Board.grid W H this2 m3 = Board.grid W H this2 m2) /\
      (forall (j : nat) (v : byte),
          (j < Board.N W H)%nat ->
          exists m3 : memory,
            store (this2 + j) v m2 = Some m3 /\
            Board.grid W H this2 m3 = <[j := v]> (Board.grid W H this2 m2) /\
            Board.grid W H this1 m3 = Board.grid W H this1 m2).
Proof.
  intros _ _ indet1 indet2 m.
  set (cells := replicate (Board.N W H) (to_underlying Background)).
  assert (Hcells : length cells = Board.N W H) by apply length_replicate.
  exists (length m), (length (m ++ cells)), (m ++ cells), ((m ++ cells) ++ cells).
  rewrite !Board_new_Some.
  split; [reflexivity |]. split; [reflexivity |].
  assert (Hgrid1 : Board.grid W H (length m) ((m ++ cells) ++ cells) = cells).
  { rewrite <- app_assoc. by apply grid_app_middle. }
  assert (Hgrid2 : Board.grid W H (length (m ++ cells)) ((m ++ cells) ++ cells)
                   = cells).
  { by apply grid_app_end. }
  split; [| split; [exact Hgrid1 | split; [exact Hgrid2 | split]]].
  - intros i j Hi Hj. rewrite length_app, Hcells. lia.
  - intros i v Hi. rewrite Hgrid1, Hgrid2.
    rewrite store_Some by (rewrite !length_app; lia).
    eexists. split; [reflexivity |].
    rewrite <- app_assoc, insert_app_r, insert_app_l by lia. split.
    + apply grid_app_middle. by rewrite length_insert.
    + replace (length (m ++ cells)) with (length (m ++ <[i := v]> cells))
        by (by rewrite !length_app, length_insert).
      rewrite app_assoc. by apply grid_app_end.
  - intros j v Hj. rewrite Hgrid1, Hgrid2.
    rewrite store_Some by (rewrite !length_app; lia).
    eexists. split; [reflexivity |].
    rewrite insert_app_r. split.
    + apply grid_app_end. by rewrite length_insert.
    + rewrite <- app_assoc. by apply grid_app_middle.
Qed.

(** Two 2x2 boards created after one byte already in use. *)
Lemma Board_two_instances_independent_witness :
  exists (this1 this2 : addr) (m1 m2 : memory),
    Board.new_ 2 2 (fun _ => xff) [x2a] = Some (this1, m1) /\
    Board.new_ 2 2 (fun _ => xee) m1 = Some (this2, m2) /\
    (forall i j : nat,
        (i < Board.N 2 2)%nat -> (j < Board.N 2 2)%nat ->
        (this1 + i)%nat <> (this2 + j)%nat) /\
    Board.grid 2 2 this1 m2 = replicate (Board.N 2 2) (to_underlying Background) /\
    Board.grid 2 2 this2 m2 = replicate (Board.N 2 2) (to_underlying Background) /\
    (forall (i : nat) (v : byte),
        (i < Board.N 2 2)%nat ->
        exists m3 : memory,
          store (this1 + i) v m2 = Some m3 /\
          Board.grid 2 2 this1 m3 = <[i := v]> (Board.grid 2 2 this1 m2) /\
          Board.grid 2 2 this2 m3 = Board.grid 2 2 this2 m2) /\
    (forall (j : nat) (v : byte),
        (j < Board.N 2 2)%nat ->
        exists m3 : memory,
          store (this2 + j) v m2 = Some m3 /\
          Board.grid 2 2 this2 m3 = <[j := v]> (Board.grid 2 2 this2 m2) /\
          Board.grid 2 2 this1 m3 = Board.grid 2 2 this1 m2).
Proof.
  apply (Board_two_instances_independent 2 2); solve_dims.
Defined.

(** * Further properties of the constructor *)

Section ConstructorEffect.

Variables width height : Z.

Local Abbreviation N := (Board.N width height).
Local Abbreviation bg := (to_underlying Background).

(** The memory a completed run leaves, byte by byte. *)
Lemma filled_lookup (this : addr) (m : memory) (p : addr) :
  (this + N <= length m)%nat ->
  (take this m ++ replicate N bg ++ drop (this + N) m) !! p
  = if decide (this <= p < this + N)%nat then Some bg else m !! p.
Proof.
  intros Halloc.
  assert (Htake : length (take this m) = this) by (rewrite length_take; lia).
  case_decide as Hin.
  - rewrite lookup_app_r by lia. rewrite Htake.
    rewrite lookup_app_l by (rewrite length_replicate; lia).
    apply lookup_replicate_2. lia.
  - destruct (decide (p < this)%nat) as [Hlt | Hge].
    + rewrite lookup_app_l by lia. by apply lookup_take_lt.
    + rewrite lookup_app_r by lia. rewrite Htake.
      rewrite lookup_app_r by (rewrite length_replicate; lia).
      rewrite length_replicate, lookup_drop. f_equal. lia.
Qed.

Lemma filled_length (this : addr) (m : memory) :
  (this + N <= length m)%nat ->
  length (take this m ++ replicate N bg ++ drop (this + N) m) = length m.
Proof.
  intros Halloc.
  rewrite !length_app, length_take, length_replicate, length_drop. lia.
Qed.

(** A board without cells: the loop body never runs. *)
Lemma Board_ctor_no_cell (this : addr) (m : memory) :
  N = 0%nat -> Board.Board width height this m = Some m.
Proof. intros Hz. unfold Board.Board. by rewrite Hz. Qed.

(** A board with cells whose storage is not all allocated. *)
Lemma Board_ctor_None (this : addr) (m : memory) :
  N <> 0%nat -> ~ Board.allocated width height this m ->
  Board.Board width height this m = None.
Proof.
  unfold Board.allocated, Board.grid_end, Board.Board, Board.grid_begin.
  intros Hnz Hout. apply range_for_assign_None; lia.
Qed.

End ConstructorEffect.

(** X1.  The effect of a completed run of the constructor, address by
    address: the memory keeps its size, every byte of the object's [grid]
    holds Background whatever it held before, and every byte outside the
    object is what it was. *)
Theorem Board_ctor_effect (W H : Z) (this : addr) (m m' : memory) :
  Board.Board W H this m = Some m' ->
  length m' = length m /\
  forall p : addr,
    load p m'
    = if decide (this <= p < this + Board.N W H)%nat
      then Some (to_underlying Background)
      else load p m.
Proof.
  intros Hrun. destruct (Board_ctor_Some_inv _ _ _ _ _ Hrun) as [Halloc | Hz].
  - rewrite Board_ctor_Some in Hrun by exact Halloc.
    injection Hrun as <-.
    unfold Board.allocated, Board.grid_end in Halloc.
    split; [by apply filled_length |].
    intros p. unfold load. by apply filled_lookup.
  - rewrite Board_ctor_no_cell in Hrun by exact Hz. injection Hrun as <-.
    split; [reflexivity |]. intros p. rewrite decide_False by lia. reflexivity.
Qed.

(** A 2x2 board between two bytes in use. *)
Lemma Board_ctor_effect_witness :
  length [x2a; x07; x07; x07; x07; x2b] = length [x2a; x10; x11; x12; x13; x2b] /\
  forall p : addr,
    load p [x2a; x07; x07; x07; x07; x2b]
    = if decide (1 <= p < 1 + Board.N 2 2)%nat
      then Some (to_underlying Background)
      else load p [x2a; x10; x11; x12; x13; x2b].
Proof.
  apply (Board_ctor_effect 2 2 1 [x2a; x10; x11; x12; x13; x2b]). reflexivity.
Defined.

(** X2.  When the constructor completes.  The loop stores into every cell
    of [grid] and does nothing else, so a run completes exactly when the
    board has no cell or all of its cells lie in allocated storage; with a
    single cell outside, the run is an out-of-bounds store. *)
Theorem Board_ctor_completes_iff (W H : Z) (this : addr) (m : memory) :
  is_Some (Board.Board W H this m)
  <-> Board.N W H = 0%nat \/ Board.allocated W H this m.
Proof.
  split.
  - intros [m' Hrun]. destruct (Board_ctor_Some_inv _ _ _ _ _ Hrun); auto.
  - intros [Hz | Halloc].
    + rewrite Board_ctor_no_cell by exact Hz. by eexists.
    + rewrite Board_ctor_Some by exact Halloc. by eexists.
Qed.

(** X3.  The constructor reads nothing of the object it initialises: run on
    two memories of the same size that agree on every byte outside the
    object, it gives the same result, whatever the cells held. *)
Theorem Board_ctor_ignores_prior_content (W H : Z) (this : addr)
    (m1 m2 : memory) :
  length m1 = length m2 ->
  (forall p : addr,
      (p < this \/ this + Board.N W H <= p)%nat -> load p m1 = load p m2) ->
  Board.Board W H this m1 = Board.Board W H this m2.
Proof.
  intros Hlen Hout.
  destruct (decide (Board.N W H = 0%nat)) as [Hz | Hnz].
  - rewrite !Board_ctor_no_cell by exact Hz. f_equal.
    apply list_eq. intros p. apply Hout. lia.
  - destruct (decide (this + Board.N W H <= length m1)%nat) as [Hin | Hover].
    + rewrite !Board_ctor_Some
        by (unfold Board.allocated, Board.grid_end; lia).
      f_equal. apply list_eq. intros p.
      rewrite !filled_lookup by lia.
      case_decide as Hp; [reflexivity |]. apply Hout. lia.
    + rewrite !Board_ctor_None
        by (unfold Board.allocated, Board.grid_end; lia || exact Hnz).
      reflexivity.
Qed.

(** Two memories that differ in the four cells of a 2x2 board only. *)
Lemma Board_ctor_ignores_prior_content_witness :
  Board.Board 2 2 1 [x2a; x10; x11; x12; x13; x2b]
  = Board.Board 2 2 1 [x2a; xaa; xbb; xcc; xdd; x2b].
Proof.
  apply (Board_ctor_ignores_prior_content 2 2 1); [reflexivity |].
  intros p Hp. change (Board.N 2 2) with 4%nat in Hp.
  do 6 (destruct p as [|p]; [first [reflexivity | lia] |]). reflexivity.
Defined.

(** X4.  Running the constructor again on a constructed board changes
    nothing: the second run completes and returns the memory it was given. *)
Theorem Board_ctor_idempotent (W H : Z) (this : addr) (m m' : memory) :
  Board.Board W H this m = Some m' ->
  Board.Board W H this m' = Some m'.
Proof.
  intros Hrun. destruct (Board_ctor_Some_inv _ _ _ _ _ Hrun) as [Halloc | Hz].
  - rewrite Board_ctor_Some in Hrun by exact Halloc.
    apply (inj Some) in Hrun. subst m'.
    unfold Board.allocated, Board.grid_end in Halloc.
    pose proof (filled_length W H this m Halloc) as Hlen.
    rewrite Board_ctor_Some
      by (unfold Board.allocated, Board.grid_end; lia).
    f_equal. apply list_eq. intros p.
    rewrite filled_lookup by lia.
    case_decide as Hp; [| reflexivity].
    rewrite filled_lookup by lia. by rewrite decide_True.
  - by apply Board_ctor_no_cell.
Qed.

(** A second run on the 2x2 board of the earlier example. *)
Lemma Board_ctor_idempotent_witness :
  Board.Board 2 2 1 [x2a; x07; x07; x07; x07; x2b]
  = Some [x2a; x07; x07; x07; x07; x2b].
Proof.
  apply (Board_ctor_idempotent 2 2 1 [x2a; x10; x11; x12; x13; x2b]).
  reflexivity.
Defined.

(** X5.  Constructors of two boards commute.  For two allocated boards, of
    any dimensions, running one constructor and then the other completes
    and gives the same memory in either order. *)
Theorem Board_ctors_commute (W1 H1 W2 H2 : Z) (this1 this2 : addr)
    (m : memory) :
  Board.allocated W1 H1 this1 m ->
  Board.allocated W2 H2 this2 m ->
  exists m' : memory,
    Board.Board W1 H1 this1 m ≫= Board.Board W2 H2 this2 = Some m' /\
    Board.Board W2 H2 this2 m ≫= Board.Board W1 H1 this1 = Some m'.
Proof.
  intros Halloc1 Halloc2.
  rewrite (Board_ctor_Some _ _ _ _ Halloc1), (Board_ctor_Some _ _ _ _ Halloc2).
  unfold Board.allocated, Board.grid_end in Halloc1, Halloc2.
  cbn [mbind option_bind].
  pose proof (filled_length W1 H1 this1 m Halloc1) as Hlen1.
  pose proof (filled_length W2 H2 this2 m Halloc2) as Hlen2.
  rewrite !Board_ctor_Some
    by (unfold Board.allocated, Board.grid_end; lia).
  eexists. split; [reflexivity |].
  f_equal. apply list_eq. intros p.
  rewrite !filled_lookup by lia.
  repeat case_decide; reflexivity.
Qed.

(** A 2x2 board and a 1x3 board in eight bytes of storage. *)
Lemma Board_ctors_commute_witness :
  exists m' : memory,
    Board.Board 2 2 0 (replicate 8 xff) ≫= Board.Board 1 3 5 = Some m' /\
    Board.Board 1 3 5 (replicate 8 xff) ≫= Board.Board 2 2 0 = Some m'.
Proof.
  apply (Board_ctors_commute 2 2 1 3 0 5); vm_compute; lia.
Defined.

(** X6.  The constructor leaves every other board alone: after a completed
    run on the board at [this], the grid of any board, of any dimensions,
    whose cells do not overlap those of the constructed one reads as
    before. *)
Theorem Board_ctor_preserves_other_board (W H W0 H0 : Z) (this this0 : addr)
    (m m' : memory) :
  Board.Board W H this m = Some m' ->
  (Board.grid_end W0 H0 this0 <= Board.grid_begin this
   \/ Board.grid_end W H this <= Board.grid_begin this0)%nat ->
  Board.grid W0 H0 this0 m' = Board.grid W0 H0 this0 m.
Proof.
  intros Hrun Hdisjoint.
  destruct (Board_ctor_frame _ _ _ _ _ Hrun) as [_ Hout].
  unfold Board.grid_end, Board.grid_begin in *.
  apply list_eq. intros i.
  destruct (decide (i < Board.N W0 H0)%nat) as [Hi | Hi].
  - rewrite !grid_lookup by exact Hi. apply Hout. lia.
  - unfold Board.grid. by rewrite !lookup_take_ge by lia.
Qed.

(** A 1x3 board that holds colours while a 2x2 board is constructed next
    to it. *)
Lemma Board_ctor_preserves_other_board_witness :
  Board.grid 1 3 5 [x07; x07; x07; x07; x2a; x01; x02; x03]
  = Board.grid 1 3 5 [x10; x11; x12; x13; x2a; x01; x02; x03].
Proof.
  apply (Board_ctor_preserves_other_board 2 2 1 3 0 5
           [x10; x11; x12; x13; x2a; x01; x02; x03]);
    [reflexivity | vm_compute; lia].
Defined.

(** * Further properties of the colours *)

(** X7.  Comparison by [==] tells all eight colours apart: two colours
    compare equal exactly when they are the same enumerator, because no two
    enumerators share an underlying value. *)
Theorem Color_eqb_decides_enumerator (a b : Color) :
  (Color_eqb a b = true <-> a = b) /\
  (Color_eqb a b = false <-> a <> b) /\
  (to_underlying a = to_underlying b <-> a = b).
Proof.
  pose proof (Color_eqb_eq a b) as Heq.
  split; [exact Heq |]. split.
  - destruct (Color_eqb a b); split; intros Hab;
      first [discriminate | reflexivity | idtac].
    + exfalso. apply Hab, Heq. reflexivity.
    + intros Hsame. apply Heq in Hsame. discriminate.
  - split; [apply to_underlying_inj | by intros ->].
Qed.
